(** * utils/logger: the process-wide logger facade

    A shallow embedding of [src/utils/logger/logger.go]: the package-level
    variable [globalLogger], [InitLogger], [GetLogger], [Sync] and the five
    emit helpers.  The package is a thin layer over [go.uber.org/zap]; the
    parts of zap the package calls ([zapcore.NewCore], [zapcore.NewTee],
    [zap.New], the level check of a core and the write path of a logger)
    are modelled next to it, and what the operating system and the library
    decide on their own (whether a file opens, what [zap.NewProduction]
    returns, whether a sync fails, what the sampler lets through) is an
    environment [Env] the program runs in.

    Output is kept per destination, as the list of records the destination
    received with the encoder that rendered each.  Two writers can share a
    destination: standard output and a log file opened as "/dev/stdout",
    two spellings of one path, both standard streams redirected to one
    place.  Which writers do is the environment's to say ([os_dest]).  A
    write to an open descriptor is taken to succeed and to append. *)

From stdpp Require Import base strings list gmap.
From Stdlib Require Import ZArith Lia.

Local Open Scope string_scope.
Local Open Scope Z_scope.
Local Open Scope list_scope.

(** ** zapcore: levels *)

(** [type Level int8] with its constants. *)
Definition Level := Z.

Definition DebugLevel  : Level := -1.
Definition InfoLevel   : Level := 0.
Definition WarnLevel   : Level := 1.
Definition ErrorLevel  : Level := 2.
Definition DPanicLevel : Level := 3.
Definition PanicLevel  : Level := 4.
Definition FatalLevel  : Level := 5.

(** [func (l Level) Enabled(lvl Level) bool { return lvl >= l }] *)
Definition Enabled (l lvl : Level) : bool := l <=? lvl.

(** ** zapcore: encoders, writers, cores *)

Inductive LevelEncoder :=
  | CapitalColorLevelEncoder
  | CapitalLevelEncoder
  | LowercaseLevelEncoder.

Inductive TimeEncoder := ISO8601TimeEncoder | EpochTimeEncoder.
Inductive DurationEncoder := StringDurationEncoder | SecondsDurationEncoder.
Inductive CallerEncoder := ShortCallerEncoder | FullCallerEncoder.

Record EncoderConfig := mkEncoderConfig {
  TimeKey        : string;
  LevelKey       : string;
  NameKey        : string;
  CallerKey      : string;
  MessageKey     : string;
  StacktraceKey  : string;
  LineEnding     : string;
  EncodeLevel    : LevelEncoder;
  EncodeTime     : TimeEncoder;
  EncodeDuration : DurationEncoder;
  EncodeCaller   : CallerEncoder
}.

(** [zapcore.DefaultLineEnding] *)
Definition DefaultLineEnding : string := String (Ascii.ascii_of_nat 10) EmptyString.

Inductive Encoder :=
  | NewConsoleEncoder (cfg : EncoderConfig)
  | NewJSONEncoder (cfg : EncoderConfig).

(** A [zapcore.WriteSyncer]: the two standard streams, or a file opened by
    [os.OpenFile], named by its path. *)
Inductive WriteSyncer :=
  | Stdout
  | Stderr
  | FileWriter (path : string).

(** [zapcore.NewCore(enc, ws, enab)] *)
Record ioCore := NewCore {
  core_enc   : Encoder;
  core_out   : WriteSyncer;
  core_level : Level
}.

(** A [zapcore.Core] as this program can hold one. *)
Inductive Core :=
  | CoreIO (c : ioCore)
  | CoreMulti (cs : list ioCore)
  | CoreNop
  | CoreSampler (c : ioCore).

(** [zapcore.NewTee]: no core gives the no-op core, one core is returned as
    it is, several are fanned out. *)
Definition NewTee (cores : list ioCore) : Core :=
  match cores with
  | [] => CoreNop
  | [c] => CoreIO c
  | _ => CoreMulti cores
  end.

(** The sinks behind a core. *)
Definition core_sinks (c : Core) : list ioCore :=
  match c with
  | CoreIO c => [c]
  | CoreMulti cs => cs
  | CoreNop => []
  | CoreSampler c => [c]
  end.

(** ** zap: entries, fields, loggers *)

Record Entry := mkEntry {
  ent_Level   : Level;
  ent_Message : string
}.

(** A [zap.Field]: a key and a rendered value. *)
Definition Field : Type := string * string.

(** What a sink received: the entry, its fields, the encoder that rendered
    it, and whether caller and stack trace were attached. *)
Record Record_ := mkRecord {
  rec_enc    : Encoder;
  rec_entry  : Entry;
  rec_fields : list Field;
  rec_caller : bool;
  rec_stack  : bool
}.

(** A [zap.Logger] value. [addStack] is the level from which a stack trace
    is attached; [zap.New] starts from [FatalLevel + 1]. *)
Record Logger := mkLogger {
  log_core        : Core;
  log_development : bool;
  log_addCaller   : bool;
  log_addStack    : Level;
  log_errorOutput : WriteSyncer
}.

Inductive Option_ :=
  | AddCaller
  | AddStacktrace (lvl : Level).

Definition applyOption (log : Logger) (o : Option_) : Logger :=
  match o with
  | AddCaller =>
      mkLogger (log_core log) (log_development log) true
               (log_addStack log) (log_errorOutput log)
  | AddStacktrace lvl =>
      mkLogger (log_core log) (log_development log) (log_addCaller log)
               lvl (log_errorOutput log)
  end.

(** [zap.New(core, options...)] *)
Definition zap_New (core : Core) (opts : list Option_) : Logger :=
  foldl applyOption (mkLogger core false false (FatalLevel + 1) Stderr) opts.

(** A [*zap.Logger]: the address the logger was allocated at, with the
    logger it points to (a logger is never mutated after construction). *)
Record LoggerRef := mkRef {
  ref_addr : nat;
  ref_obj  : Logger
}.

(** A Go [error], by its message. *)
Definition error := string.

(** ** The environment *)

Record Env := mkEnv {
  (** [os.OpenFile(path, O_APPEND|O_CREATE|O_WRONLY, 0644)]: [None] when
      the file opens, the error otherwise. *)
  os_OpenFile : string -> option error;
  (** The destination behind a writer, by its identity: what descriptor 1,
      descriptor 2 and the file a path names refer to.  Writers with the
      same identity write to the same place. *)
  os_dest : WriteSyncer -> string;
  (** [zap.NewProduction()]: the logger (nil when it fails) and the error. *)
  zap_NewProduction : option Logger * option error;
  (** [Sync] of a write syncer. *)
  ws_Sync : WriteSyncer -> option error;
  (** The decision of zap's sampler for the [n]-th entry it is asked
      about: its counters and its clock are not modelled. *)
  sampler_admits : nat -> Entry -> bool
}.

(** ** The process state *)

Record State := mkState {
  (** [var globalLogger *zap.Logger]; [None] is nil. *)
  globalLogger : option LoggerRef;
  (** The next free logger address. *)
  next_addr : nat;
  (** What each destination holds, by the identity of the destination (a
      file, a terminal, a pipe); an identity absent from the map is a file
      that does not exist. *)
  files : gmap string (list Record_);
  (** Files opened and never closed, by the path given, oldest first. *)
  handles : list string;
  (** The number of entries the sampler has been asked about. *)
  sampler_checks : nat;
  (** The sync requests sent to sinks, oldest first. *)
  syncs : list WriteSyncer
}.

Definition init_state : State :=
  mkState None 0%nat ∅ [] 0%nat [].

Definition set_global (g : option LoggerRef) (st : State) : State :=
  mkState g (next_addr st) (files st) (handles st)
          (sampler_checks st) (syncs st).

(** Allocating a logger: a fresh address. *)
Definition alloc (log : Logger) (st : State) : LoggerRef * State :=
  (mkRef (next_addr st) log,
   mkState (globalLogger st) (S (next_addr st)) (files st) (handles st)
           (sampler_checks st) (syncs st)).

(** Opening a file for append creates it when it is absent and never
    truncates it. *)
Definition open_append (E : Env) (path : string) (st : State) : State :=
  mkState (globalLogger st) (next_addr st)
          (match files st !! os_dest E (FileWriter path) with
           | Some _ => files st
           | None => <[os_dest E (FileWriter path) := []]> (files st)
           end)
          (handles st ++ [path])
          (sampler_checks st) (syncs st).

(** The records the destination of a write syncer has received. *)
Definition output (E : Env) (w : WriteSyncer) (st : State) : list Record_ :=
  default [] (files st !! os_dest E w).

(** A write appends to the destination of the writer. *)
Definition ws_write (E : Env) (w : WriteSyncer) (r : Record_) (st : State)
    : State :=
  mkState (globalLogger st) (next_addr st)
          (<[os_dest E w := output E w st ++ [r]]> (files st))
          (handles st) (sampler_checks st) (syncs st).

Definition ws_sync (w : WriteSyncer) (st : State) : State :=
  mkState (globalLogger st) (next_addr st) (files st) (handles st)
          (sampler_checks st) (syncs st ++ [w]).

(** The cores of a list whose writer shares the destination of [w]. *)
Definition cores_writing_to (E : Env) (w : WriteSyncer) (cs : list ioCore)
    : list ioCore :=
  List.filter (fun c => String.eqb (os_dest E (core_out c)) (os_dest E w)) cs.

(** Two states with the same logger variable, address counter and open
    handles: what writes and syncs leave alone. *)
Definition same_control (st st' : State) : Prop :=
  globalLogger st' = globalLogger st /\
  next_addr st' = next_addr st /\
  handles st' = handles st.

(** How a call ends: it returns, it panics, or the process exits. *)
Inductive Outcome := Returned | Panicked | Exited.

Section Logger.

Variable E : Env.

(** ** zap: the write path *)

(** [Core.Enabled] *)
Definition core_Enabled (c : Core) (lvl : Level) : bool :=
  match c with
  | CoreIO c => Enabled (core_level c) lvl
  | CoreMulti cs => existsb (fun c => Enabled (core_level c) lvl) cs
  | CoreNop => false
  | CoreSampler c => Enabled (core_level c) lvl
  end.

(** [Core.Check]: the sinks that take the entry.  An [ioCore] adds itself
    when its level admits the entry, a tee asks each of its cores in turn,
    a sampler also asks its counters; [n] is the number of entries the
    sampler was asked about before. *)
Definition core_Check (c : Core) (ent : Entry) (n : nat) : list ioCore :=
  match c with
  | CoreIO c => if Enabled (core_level c) (ent_Level ent) then [c] else []
  | CoreMulti cs =>
      List.filter (fun c => Enabled (core_level c) (ent_Level ent)) cs
  | CoreNop => []
  | CoreSampler c =>
      if Enabled (core_level c) (ent_Level ent) && sampler_admits E n ent
      then [c] else []
  end.

(** A sampler counts every entry its level admits. *)
Definition sampler_count (c : Core) (lvl : Level) (st : State) : State :=
  match c with
  | CoreSampler c =>
      if Enabled (core_level c) lvl
      then mkState (globalLogger st) (next_addr st) (files st) (handles st)
                   (S (sampler_checks st)) (syncs st)
      else st
  | _ => st
  end.

(** [ioCore.Write]: encode, write, and sync when the entry is above
    [ErrorLevel]. *)
Definition io_Write (r : Record_) (c : ioCore) (st : State) : State :=
  let st1 := ws_write E (core_out c) r st in
  if ErrorLevel <? ent_Level (rec_entry r)
  then ws_sync (core_out c) st1
  else st1.

(** The hook [Logger.check] attaches after the write. *)
Definition after_write (log : Logger) (lvl : Level) : Outcome :=
  if lvl =? PanicLevel then Panicked
  else if lvl =? FatalLevel then Exited
  else if lvl =? DPanicLevel
       then (if log_development log then Panicked else Returned)
  else Returned.

(** [Logger.Debug], [Logger.Info], ... at level [lvl]: [check], then
    [CheckedEntry.Write] to every core that took the entry, then the hook. *)
Definition Logger_log (log : Logger) (lvl : Level) (msg : string)
    (fields : list Field) (st : State) : Outcome * State :=
  if (lvl <? DPanicLevel) && negb (core_Enabled (log_core log) lvl)
  then (Returned, st)
  else
    let ent := mkEntry lvl msg in
    let addStack := Enabled (log_addStack log) lvl in
    let st' :=
      foldl (fun s c =>
               io_Write (mkRecord (core_enc c) ent fields
                                  (log_addCaller log) addStack) c s)
            (sampler_count (log_core log) lvl st)
            (core_Check (log_core log) ent (sampler_checks st)) in
    (after_write log lvl, st').

(** A method called through a [*zap.Logger]: a nil receiver panics on its
    first field access. *)
Definition call_log (l : option LoggerRef) (lvl : Level) (msg : string)
    (fields : list Field) (st : State) : Outcome * State :=
  match l with
  | None => (Panicked, st)
  | Some r => Logger_log (ref_obj r) lvl msg fields st
  end.

(** [Logger.Sync]: every sink is asked to sync; the errors are joined. *)
Definition Logger_Sync (log : Logger) (st : State) : option error * State :=
  let sinks := core_sinks (log_core log) in
  let errs := omap (fun c => ws_Sync E (core_out c)) sinks in
  (match errs with
   | [] => None
   | _ => Some (String.concat "; " errs)
   end,
   foldl (fun s c => ws_sync (core_out c) s) st sinks).

(** ** The package *)

(** The level switch of [InitLogger] (lines 16-28). *)
Definition zapLevel (level : string) : Level :=
  if String.eqb level "debug" then DebugLevel
  else if String.eqb level "info" then InfoLevel
  else if String.eqb level "warn" then WarnLevel
  else if String.eqb level "error" then ErrorLevel
  else InfoLevel.

Definition encoderConfig : EncoderConfig :=
  mkEncoderConfig "time" "level" "logger" "caller" "msg" "stacktrace"
                  DefaultLineEnding CapitalColorLevelEncoder
                  ISO8601TimeEncoder StringDurationEncoder ShortCallerEncoder.

Definition consoleEncoder : Encoder := NewConsoleEncoder encoderConfig.

Definition fileEncoderConfig : EncoderConfig :=
  mkEncoderConfig (TimeKey encoderConfig) (LevelKey encoderConfig)
                  (NameKey encoderConfig) (CallerKey encoderConfig)
                  (MessageKey encoderConfig) (StacktraceKey encoderConfig)
                  (LineEnding encoderConfig) CapitalLevelEncoder
                  (EncodeTime encoderConfig) (EncodeDuration encoderConfig)
                  (EncodeCaller encoderConfig).

Definition fileEncoder : Encoder := NewJSONEncoder fileEncoderConfig.

Definition consoleWriter : WriteSyncer := Stdout.

(** Lines 70-74 of [InitLogger]: tee the cores, build the logger, assign
    [globalLogger], return nil. *)
Definition install (cores : list ioCore) (st : State) : option error * State :=
  let core := NewTee cores in
  let '(r, st1) :=
    alloc (zap_New core [AddCaller; AddStacktrace ErrorLevel]) st in
  (None, set_global (Some r) st1).

(** [func InitLogger(level string, logFile string) error] *)
Definition InitLogger (level logFile : string) (st : State)
    : option error * State :=
  let zapLevel := zapLevel level in
  let cores := [] ++ [NewCore consoleEncoder consoleWriter zapLevel] in
  if negb (String.eqb logFile "") then
    match os_OpenFile E logFile with
    | Some err => (Some ("failed to open log file: " +:+ err), st)
    | None =>
        let st1 := open_append E logFile st in
        let fileWriter := FileWriter logFile in
        let cores := cores ++ [NewCore fileEncoder fileWriter zapLevel] in
        install cores st1
    end
  else install cores st.

(** [func GetLogger() *zap.Logger] *)
Definition GetLogger (st : State) : option LoggerRef * State :=
  match globalLogger st with
  | None =>
      match fst (zap_NewProduction E) with
      | Some log =>
          let '(r, st1) := alloc log st in
          let st2 := set_global (Some r) st1 in
          (globalLogger st2, st2)
      | None =>
          let st2 := set_global None st in
          (globalLogger st2, st2)
      end
  | Some _ => (globalLogger st, st)
  end.

(** [func Sync()] *)
Definition Sync (st : State) : Outcome * State :=
  match globalLogger st with
  | Some r =>
      let '(_, st1) := Logger_Sync (ref_obj r) st in
      (Returned, st1)
  | None => (Returned, st)
  end.

(** The five helpers: [GetLogger().Debug(msg, fields...)] and so on. *)
Definition Debug (msg : string) (fields : list Field) (st : State)
    : Outcome * State :=
  let '(l, st1) := GetLogger st in call_log l DebugLevel msg fields st1.

Definition Info (msg : string) (fields : list Field) (st : State)
    : Outcome * State :=
  let '(l, st1) := GetLogger st in call_log l InfoLevel msg fields st1.

Definition Warn (msg : string) (fields : list Field) (st : State)
    : Outcome * State :=
  let '(l, st1) := GetLogger st in call_log l WarnLevel msg fields st1.

Definition Error (msg : string) (fields : list Field) (st : State)
    : Outcome * State :=
  let '(l, st1) := GetLogger st in call_log l ErrorLevel msg fields st1.

Definition Fatal (msg : string) (fields : list Field) (st : State)
    : Outcome * State :=
  let '(l, st1) := GetLogger st in call_log l FatalLevel msg fields st1.

(** ** Calls and runs *)

Inductive Call :=
  | CallInitLogger (level logFile : string)
  | CallGetLogger
  | CallSync
  | CallDebug (msg : string) (fields : list Field)
  | CallInfo (msg : string) (fields : list Field)
  | CallWarn (msg : string) (fields : list Field)
  | CallError (msg : string) (fields : list Field)
  | CallFatal (msg : string) (fields : list Field).

Definition run_call (c : Call) (st : State) : State :=
  match c with
  | CallInitLogger level logFile => snd (InitLogger level logFile st)
  | CallGetLogger => snd (GetLogger st)
  | CallSync => snd (Sync st)
  | CallDebug msg fields => snd (Debug msg fields st)
  | CallInfo msg fields => snd (Info msg fields st)
  | CallWarn msg fields => snd (Warn msg fields st)
  | CallError msg fields => snd (Error msg fields st)
  | CallFatal msg fields => snd (Fatal msg fields st)
  end.

Definition run (cs : list Call) (st : State) : State :=
  foldl (fun s c => run_call c s) st cs.

(** [GetLogger().M(msg, fields...)] for the method [M] of level [lvl]:
    the shape the five helpers share. *)
Definition emit (lvl : Level) (msg : string) (fields : list Field)
    (st : State) : Outcome * State :=
  let '(l, st1) := GetLogger st in call_log l lvl msg fields st1.

(** [n] calls of [GetLogger] in a row, with what each returned. *)
Fixpoint repeat_GetLogger (n : nat) (st : State)
    : list (option LoggerRef) * State :=
  match n with
  | O => ([], st)
  | S n =>
      let '(l, st1) := GetLogger st in
      let '(ls, st2) := repeat_GetLogger n st1 in
      (l :: ls, st2)
  end.

(** The calls of [InitLogger] that reach line 72: an empty path, or a
    path the system opens. *)
Definition init_succeeds (c : Call) : bool :=
  match c with
  | CallInitLogger _ logFile =>
      String.eqb logFile "" ||
      (if os_OpenFile E logFile is None then true else false)
  | _ => false
  end.

End Logger.

(** ** The level table, in the words of the specification *)


(** ** Concurrent first use

    [GetLogger] takes no lock.  Each caller runs its three statements
    (line 79: the nil test, line 81: construct and assign, line 83: read and
    return) and callers interleave between statements. *)

Module Concurrent.

Inductive Pc :=
  | AtCheck
  | AtCreate
  | AtReturn
  | Done (result : option LoggerRef).

Record Conf := mkConf {
  shared  : State;
  threads : list Pc
}.

Definition step_thread (E : Env) (pc : Pc) (st : State) : Pc * State :=
  match pc with
  | AtCheck =>
      (if globalLogger st is None then AtCreate else AtReturn, st)
  | AtCreate =>
      match fst (zap_NewProduction E) with
      | Some log =>
          let '(r, st1) := alloc log st in
          (AtReturn, set_global (Some r) st1)
      | None => (AtReturn, set_global None st)
      end
  | AtReturn => (Done (globalLogger st), st)
  | Done r => (Done r, st)
  end.

(** Thread [i] runs its next statement. *)
Definition step (E : Env) (c : Conf) (i : nat) : Conf :=
  match threads c !! i with
  | Some pc =>
      let '(pc', st') := step_thread E pc (shared c) in
      mkConf st' (<[i := pc']> (threads c))
  | None => c
  end.

Definition exec (E : Env) (sched : list nat) (c : Conf) : Conf :=
  foldl (step E) c sched.

(** [n] callers about to enter [GetLogger]. *)
Definition start (n : nat) (st : State) : Conf :=
  mkConf st (replicate n AtCheck).





End Concurrent.

(** ** Concrete environments *)

(** [zap.NewProductionEncoderConfig()] *)
Definition productionEncoderConfig : EncoderConfig :=
  mkEncoderConfig "ts" "level" "logger" "caller" "msg" "stacktrace"
                  DefaultLineEnding LowercaseLevelEncoder
                  EpochTimeEncoder SecondsDurationEncoder ShortCallerEncoder.

(** The logger [zap.NewProduction()] builds: sampled JSON to standard
    error from [InfoLevel], caller attached, stack traces from
    [ErrorLevel]. *)
Definition productionLogger : Logger :=
  mkLogger (CoreSampler (NewCore (NewJSONEncoder productionEncoderConfig)
                                 Stderr InfoLevel))
           false true ErrorLevel Stderr.

(** Destinations when nothing is redirected or linked and every file is
    named by one spelling of its path: each stream is its own device, and a
    path names the file of that name. *)
Definition plain_dest (w : WriteSyncer) : string :=
  match w with
  | Stdout => "/dev/stdout"
  | Stderr => "/dev/stderr"
  | FileWriter p => p
  end.

(** A system where one directory is missing and everything else works. *)
Definition env0 : Env :=
  mkEnv (fun p => if String.eqb p "/missing/app.log"
                  then Some "open /missing/app.log: no such file or directory"
                  else None)
        plain_dest
        (Some productionLogger, None)
        (fun _ => None)
        (fun _ _ => true).

(** A system where syncing standard output fails, as it does on a
    terminal. *)
Definition env_sync_fails : Env :=
  mkEnv (fun _ => None)
        plain_dest
        (Some productionLogger, None)
        (fun w => match w with
                  | Stdout => Some "sync /dev/stdout: invalid argument"
                  | _ => None
                  end)
        (fun _ _ => true).

(** A system where [zap.NewProduction] fails. *)
Definition env_no_fallback : Env :=
  mkEnv (fun _ => None)
        plain_dest
        (None, Some "couldn't open sink")
        (fun _ => None)
        (fun _ _ => true).

(** A system whose sampler lets the first three entries through and drops
    the rest. *)
Definition env_sampling : Env :=
  mkEnv (fun _ => None)
        plain_dest
        (Some productionLogger, None)
        (fun _ => None)
        (fun n _ => (n <? 3)%nat).

(** ** What a call builds and opens *)

(** The slice [cores] as lines 57-68 of [InitLogger] leave it when the
    call reaches line 71. *)
Definition InitLogger_cores (level logFile : string) : list ioCore :=
  NewCore consoleEncoder consoleWriter (zapLevel level) ::
  (if String.eqb logFile "" then []
   else [NewCore fileEncoder (FileWriter logFile) (zapLevel level)]).

(** The logger line 72 builds from that slice. *)
Definition InitLogger_logger (level logFile : string) : Logger :=
  zap_New (NewTee (InitLogger_cores level logFile))
          [AddCaller; AddStacktrace ErrorLevel].

(** The file a call opens: the path of an [InitLogger] call that passes
    the guard on line 61 and whose [os.OpenFile] succeeds. *)
Definition opened_path (E : Env) (c : Call) : option string :=
  match c with
  | CallInitLogger _ logFile =>
      if negb (String.eqb logFile "") then
        (if os_OpenFile E logFile is None then Some logFile else None)
      else None
  | _ => None
  end.

(** The record a logger hands to the core [c] for an entry. *)
Definition record_for (log : Logger) (lvl : Level) (msg : string)
    (fields : list Field) (c : ioCore) : Record_ :=
  mkRecord (core_enc c) (mkEntry lvl msg) fields
           (log_addCaller log) (Enabled (log_addStack log) lvl).

(** * Properties *)

(** ** Helper lemmas *)

Section Facts.

Variable E : Env.


Lemma zapLevel_range (level : string) :
  DebugLevel <= zapLevel level <= ErrorLevel.
Proof.
  unfold zapLevel, DebugLevel, InfoLevel, WarnLevel, ErrorLevel.
  repeat case_match; lia.
Qed.

Lemma install_eq (cores : list ioCore) (st : State) :
  install cores st =
  (None,
   set_global
     (Some (mkRef (next_addr st)
                  (mkLogger (NewTee cores) false true ErrorLevel Stderr)))
     (snd (alloc (mkLogger (NewTee cores) false true ErrorLevel Stderr) st))).
Proof. reflexivity. Qed.

Lemma InitLogger_empty (level : string) (st : State) :
  InitLogger E level "" st =
  install [NewCore consoleEncoder consoleWriter (zapLevel level)] st.
Proof. reflexivity. Qed.

Lemma InitLogger_open_fails (level logFile : string) (st : State) (err : error) :
  logFile <> "" -> os_OpenFile E logFile = Some err ->
  InitLogger E level logFile st =
  (Some ("failed to open log file: " +:+ err), st).
Proof.
  intros Hne Hopen. unfold InitLogger.
  destruct (String.eqb_spec logFile ""); [done|]. cbn [negb].
  now rewrite Hopen.
Qed.

Lemma InitLogger_open_ok (level logFile : string) (st : State) :
  logFile <> "" -> os_OpenFile E logFile = None ->
  InitLogger E level logFile st =
  install [NewCore consoleEncoder consoleWriter (zapLevel level);
           NewCore fileEncoder (FileWriter logFile) (zapLevel level)]
          (open_append E logFile st).
Proof.
  intros Hne Hopen. unfold InitLogger.
  destruct (String.eqb_spec logFile ""); [done|]. cbn [negb].
  now rewrite Hopen.
Qed.

(** The sinks [InitLogger] configures for a path. *)
Lemma InitLogger_cases (level logFile : string) (st : State) :
  (logFile = "" /\ InitLogger E level logFile st =
     install [NewCore consoleEncoder consoleWriter (zapLevel level)] st) \/
  (logFile <> "" /\ os_OpenFile E logFile = None /\
   InitLogger E level logFile st =
     install [NewCore consoleEncoder consoleWriter (zapLevel level);
              NewCore fileEncoder (FileWriter logFile) (zapLevel level)]
             (open_append E logFile st)) \/
  (logFile <> "" /\ exists err, os_OpenFile E logFile = Some err /\
   InitLogger E level logFile st =
     (Some ("failed to open log file: " +:+ err), st)).
Proof.
  destruct (decide (logFile = "")) as [->|Hne].
  - left. split; [done|apply InitLogger_empty].
  - right. destruct (os_OpenFile E logFile) as [err|] eqn:Hopen.
    + right. split; [done|]. exists err. split; [done|].
      now apply InitLogger_open_fails.
    + left. split; [done|]. split; [done|]. now apply InitLogger_open_ok.
Qed.

Lemma GetLogger_some (st : State) (r : LoggerRef) :
  globalLogger st = Some r -> GetLogger E st = (Some r, st).
Proof. intros H. unfold GetLogger. now rewrite H. Qed.

Lemma GetLogger_result_installed (st : State) :
  globalLogger (snd (GetLogger E st)) = fst (GetLogger E st).
Proof.
  unfold GetLogger. destruct (globalLogger st) eqn:Hg; [done|].
  destruct (fst (zap_NewProduction E)); reflexivity.
Qed.

Lemma GetLogger_usable (st : State) :
  is_Some (globalLogger st) \/ is_Some (fst (zap_NewProduction E)) ->
  exists r, fst (GetLogger E st) = Some r.
Proof.
  intros [[r Hr]|[log Hlog]]; unfold GetLogger.
  - rewrite Hr. cbn. eauto.
  - destruct (globalLogger st) as [r|] eqn:Hg; [cbn; eauto|].
    rewrite Hlog. cbn. eauto.
Qed.

Lemma repeat_GetLogger_some (n : nat) (st : State) (r : LoggerRef) :
  globalLogger st = Some r ->
  repeat_GetLogger E n st = (replicate n (Some r), st).
Proof.
  intros H. induction n as [|n IH]; [reflexivity|].
  cbn [repeat_GetLogger replicate].
  rewrite (GetLogger_some _ _ H), IH. reflexivity.
Qed.

End Facts.

(** ** Level parsing *)


(** ** Failure of the file open *)

(** C3: when the path is not empty and the file does not open,
    [InitLogger] returns the wrapped open error and the process state, with
    [globalLogger] in it, is what it was before the call. *)
Theorem InitLogger_error_atomic (E : Env) (level logFile : string)
    (st : State) (err : error) :
  logFile <> "" ->
  os_OpenFile E logFile = Some err ->
  fst (InitLogger E level logFile st)
    = Some ("failed to open log file: " +:+ err) /\
  snd (InitLogger E level logFile st) = st /\
  globalLogger (snd (InitLogger E level logFile st)) = globalLogger st.
Proof.
  intros Hne Hopen. rewrite (InitLogger_open_fails E _ _ _ _ Hne Hopen).
  repeat split.
Qed.

Lemma InitLogger_error_atomic_witness :
  fst (InitLogger env0 "debug" "/missing/app.log" init_state)
    = Some ("failed to open log file: " +:+
            "open /missing/app.log: no such file or directory") /\
  snd (InitLogger env0 "debug" "/missing/app.log" init_state) = init_state /\
  globalLogger (snd (InitLogger env0 "debug" "/missing/app.log" init_state))
    = globalLogger init_state.
Proof.
  apply (InitLogger_error_atomic env0 "debug" "/missing/app.log" init_state
           "open /missing/app.log: no such file or directory").
  - discriminate.
  - reflexivity.
Defined.

(** ** No file sink *)

(** C6: with the empty path [InitLogger] returns no error for every level
    text, opens and creates no file, and installs a logger whose only sink
    is the console sink. *)
Theorem InitLogger_no_file (E : Env) (level : string) (st : State) :
  fst (InitLogger E level "" st) = None /\
  files (snd (InitLogger E level "" st)) = files st /\
  handles (snd (InitLogger E level "" st)) = handles st /\
  exists r, globalLogger (snd (InitLogger E level "" st)) = Some r /\
            core_sinks (log_core (ref_obj r)) =
              [NewCore consoleEncoder Stdout (zapLevel level)].
Proof.
  rewrite InitLogger_empty, install_eq. cbn.
  repeat split. eexists. split; reflexivity.
Qed.

(** ** GetLogger once a logger is installed *)

(** C10: when [globalLogger] is not nil, [GetLogger] returns exactly the
    instance it holds and leaves the state as it is, so does any number of
    calls in a row, and if the state came out of a [GetLogger] call, that
    call returned the same instance. *)
Theorem GetLogger_idempotent (E : Env) (st : State) (r : LoggerRef) :
  globalLogger st = Some r ->
  GetLogger E st = (Some r, st) /\
  (forall n, repeat_GetLogger E n st = (replicate n (Some r), st)) /\
  (forall st0, st = snd (GetLogger E st0) -> fst (GetLogger E st0) = Some r).
Proof.
  intros H. split; [now apply GetLogger_some|].
  split; [intros n; now apply repeat_GetLogger_some|].
  intros st0 ->. now rewrite <- GetLogger_result_installed.
Qed.

Lemma GetLogger_idempotent_witness :
  let st := snd (GetLogger env0 init_state) in
  let r := mkRef 0 productionLogger in
  GetLogger env0 st = (Some r, st) /\
  (forall n, repeat_GetLogger env0 n st = (replicate n (Some r), st)) /\
  (forall st0, st = snd (GetLogger env0 st0) ->
               fst (GetLogger env0 st0) = Some r).
Proof.
  apply (GetLogger_idempotent env0 (snd (GetLogger env0 init_state))
           (mkRef 0 productionLogger)).
  reflexivity.
Defined.

(** ** What a write changes *)

Section WriteFacts.

Variable E : Env.

Lemma output_ws_write (w w' : WriteSyncer) (r : Record_) (st : State) :
  output E w' (ws_write E w r st) =
  output E w' st ++
    (if String.eqb (os_dest E w) (os_dest E w') then [r] else []).
Proof.
  unfold output, ws_write. cbn [files]. unfold output.
  destruct (String.eqb_spec (os_dest E w) (os_dest E w')) as [Heq|Hne].
  - rewrite <- Heq, lookup_insert_eq. reflexivity.
  - rewrite lookup_insert_ne by done. now rewrite app_nil_r.
Qed.

Lemma output_ws_write_same (w : WriteSyncer) (r : Record_) (st : State) :
  output E w (ws_write E w r st) = output E w st ++ [r].
Proof. now rewrite output_ws_write, String.eqb_refl. Qed.

Lemma output_ws_write_other (w w' : WriteSyncer) (r : Record_) (st : State) :
  os_dest E w <> os_dest E w' ->
  output E w' (ws_write E w r st) = output E w' st.
Proof.
  intros Hne. rewrite output_ws_write.
  apply String.eqb_neq in Hne. now rewrite Hne, app_nil_r.
Qed.

Lemma output_ws_sync (w w' : WriteSyncer) (st : State) :
  output E w' (ws_sync w st) = output E w' st.
Proof. reflexivity. Qed.

Lemma output_io_Write (r : Record_) (c : ioCore) (w : WriteSyncer)
    (st : State) :
  output E w (io_Write E r c st) =
  output E w st ++
    (if String.eqb (os_dest E (core_out c)) (os_dest E w) then [r] else []).
Proof.
  unfold io_Write. case_match.
  - now rewrite output_ws_sync, output_ws_write.
  - apply output_ws_write.
Qed.


Lemma output_io_Write_other (r : Record_) (c : ioCore) (w : WriteSyncer)
    (st : State) :
  os_dest E (core_out c) <> os_dest E w ->
  output E w (io_Write E r c st) = output E w st.
Proof.
  intros Hne. rewrite output_io_Write.
  apply String.eqb_neq in Hne. now rewrite Hne, app_nil_r.
Qed.

(** What a destination holds after the cores wrote in turn: what it held,
    then the records of the cores that write to it, in core order. *)
Lemma output_foldl_io_Write (mk : ioCore -> Record_) (cs : list ioCore)
    (w : WriteSyncer) (st : State) :
  output E w (foldl (fun s c => io_Write E (mk c) c s) st cs) =
  output E w st ++ map mk (cores_writing_to E w cs).
Proof.
  revert st. induction cs as [|c cs IH]; intros st; cbn [foldl].
  - cbn. now rewrite app_nil_r.
  - rewrite IH, output_io_Write. unfold cores_writing_to. cbn [List.filter].
    destruct (String.eqb (os_dest E (core_out c)) (os_dest E w)); cbn [map].
    + now rewrite <- app_assoc.
    + now rewrite app_nil_r.
Qed.

Lemma sampler_count_control (c : Core) (lvl : Level) (st : State) :
  same_control st (sampler_count c lvl st).
Proof.
  unfold sampler_count. destruct c; try (now repeat split).
  case_match; now repeat split.
Qed.

Lemma output_sampler_count (c : Core) (lvl : Level) (w : WriteSyncer)
    (st : State) :
  output E w (sampler_count c lvl st) = output E w st.
Proof.
  unfold sampler_count. destruct c; try done. now case_match.
Qed.

Lemma same_control_refl (st : State) : same_control st st.
Proof. now repeat split. Qed.

Lemma same_control_trans (st1 st2 st3 : State) :
  same_control st1 st2 -> same_control st2 st3 -> same_control st1 st3.
Proof. unfold same_control. intros (?&?&?) (?&?&?). repeat split; congruence. Qed.

Lemma io_Write_control (r : Record_) (c : ioCore) (st : State) :
  same_control st (io_Write E r c st).
Proof.
  unfold io_Write, same_control. case_match; cbn; done.
Qed.

Lemma foldl_control {A} (f : State -> A -> State) (l : list A) (st : State) :
  (forall s a, same_control s (f s a)) -> same_control st (foldl f st l).
Proof.
  intros Hf. revert st. induction l as [|a l IH]; intros st; cbn.
  - apply same_control_refl.
  - eapply same_control_trans; [apply Hf|apply IH].
Qed.

Lemma Logger_log_control (log : Logger) (lvl : Level) (msg : string)
    (fields : list Field) (st : State) :
  same_control st (snd (Logger_log E log lvl msg fields st)).
Proof.
  unfold Logger_log. case_match; cbn; [apply same_control_refl|].
  eapply same_control_trans; [apply sampler_count_control|].
  apply foldl_control. intros s c. apply io_Write_control.
Qed.

Lemma call_log_control (l : option LoggerRef) (lvl : Level) (msg : string)
    (fields : list Field) (st : State) :
  same_control st (snd (call_log E l lvl msg fields st)).
Proof.
  destruct l; cbn; [apply Logger_log_control|apply same_control_refl].
Qed.

Lemma Logger_Sync_control (log : Logger) (st : State) :
  same_control st (snd (Logger_Sync E log st)).
Proof.
  unfold Logger_Sync. cbn. apply foldl_control.
  intros s c. now repeat split.
Qed.

Lemma Logger_Sync_output (log : Logger) (w : WriteSyncer) (st : State) :
  output E w (snd (Logger_Sync E log st)) = output E w st.
Proof.
  unfold Logger_Sync. cbn. generalize (core_sinks (log_core log)) as l.
  intros l. revert st. induction l as [|c l IH]; intros st; cbn; [done|].
  now rewrite IH, output_ws_sync.
Qed.

Lemma Sync_control (st : State) : same_control st (snd (Sync E st)).
Proof.
  unfold Sync. destruct (globalLogger st) as [r|]; [|apply same_control_refl].
  pose proof (Logger_Sync_control (ref_obj r) st) as H.
  destruct (Logger_Sync E (ref_obj r) st). exact H.
Qed.

(** The level of a logger decides what [Logger_log] does with an entry
    its single console sink rejects or takes. *)
Lemma Logger_log_outcome (log : Logger) (lvl : Level) (msg : string)
    (fields : list Field) (st : State) :
  fst (Logger_log E log lvl msg fields st) =
  if (lvl <? DPanicLevel) && negb (core_Enabled (log_core log) lvl)
  then Returned else after_write log lvl.
Proof. unfold Logger_log. now case_match. Qed.

Lemma after_write_helper_levels (log : Logger) (lvl : Level) :
  lvl = DebugLevel \/ lvl = InfoLevel \/ lvl = WarnLevel \/
  lvl = ErrorLevel \/ lvl = FatalLevel ->
  after_write log lvl = (if lvl =? FatalLevel then Exited else Returned).
Proof. intros [->|[->|[->|[->| ->]]]]; reflexivity. Qed.

End WriteFacts.

(** ** The helpers are [emit] at their level *)

Lemma helpers_emit (E : Env) :
  Debug E = emit E DebugLevel /\ Info E = emit E InfoLevel /\
  Warn E = emit E WarnLevel /\ Error E = emit E ErrorLevel /\
  Fatal E = emit E FatalLevel.
Proof. repeat split. Qed.

Lemma emit_with_logger (E : Env) (lvl : Level) (msg : string)
    (fields : list Field) (st : State) :
  emit E lvl msg fields st =
  call_log E (fst (GetLogger E st)) lvl msg fields (snd (GetLogger E st)).
Proof. unfold emit. now destruct (GetLogger E st). Qed.

(** ** Filtering by level *)

Lemma cores_writing_to_self (E : Env) (c : ioCore) (cs : list ioCore) :
  c ∈ cs -> c ∈ cores_writing_to E (core_out c) cs.
Proof.
  intros Hc. apply list_elem_of_In, filter_In.
  split; [now apply list_elem_of_In|apply String.eqb_refl].
Qed.

(** C1: after a successful [InitLogger level logFile] the installed logger
    has the console sink and, for a non-empty path, the file sink, both
    built with the level [zapLevel level].  In every state where that logger
    is the installed one, a record emitted through the global logger below
    that level changes nothing (no sink receives it); a record at or above
    it appears in the output of every configured sink, rendered by that
    sink's encoder: each destination holds what it held followed by the
    records of the sinks that write to it, and nothing else. *)
Theorem emit_filtered_by_threshold (E : Env) (level logFile : string)
    (st st1 : State) :
  InitLogger E level logFile st = (None, st1) ->
  exists r,
    globalLogger st1 = Some r /\
    core_sinks (log_core (ref_obj r)) =
      NewCore consoleEncoder Stdout (zapLevel level) ::
      (if String.eqb logFile "" then []
       else [NewCore fileEncoder (FileWriter logFile) (zapLevel level)]) /\
    Forall (fun c => core_level c = zapLevel level)
           (core_sinks (log_core (ref_obj r))) /\
    forall (st' : State) (lvl : Level) (msg : string) (fields : list Field),
      globalLogger st' = Some r ->
      (lvl < zapLevel level ->
         snd (emit E lvl msg fields st') = st' /\
         forall w, output E w (snd (emit E lvl msg fields st')) = output E w st') /\
      (zapLevel level <= lvl ->
         (forall c, c ∈ core_sinks (log_core (ref_obj r)) ->
            mkRecord (core_enc c) (mkEntry lvl msg) fields true
                     (Enabled ErrorLevel lvl)
              ∈ output E (core_out c) (snd (emit E lvl msg fields st'))) /\
         (forall w,
            output E w (snd (emit E lvl msg fields st')) =
            output E w st' ++
              map (fun c => mkRecord (core_enc c) (mkEntry lvl msg) fields true
                                     (Enabled ErrorLevel lvl))
                  (cores_writing_to E w (core_sinks (log_core (ref_obj r)))))).
Proof.
  intros Hinit. pose proof (zapLevel_range level) as Hrange.
  unfold DebugLevel, ErrorLevel in Hrange.
  destruct (InitLogger_cases E level logFile st)
    as [[-> Heq]|[(Hne & Hopen & Heq)|(Hne & err & Hopen & Heq)]];
    rewrite Heq in Hinit; [| |discriminate].
  - (* console only *)
    rewrite install_eq in Hinit. inversion Hinit as [Hst1]. clear Hinit Heq.
    eexists. split; [reflexivity|]. cbn [ref_obj log_core NewTee core_sinks].
    split; [reflexivity|]. split; [repeat constructor|].
    intros st' lvl msg fields Hg.
    rewrite emit_with_logger, (GetLogger_some E _ _ Hg).
    unfold call_log, Logger_log.
    cbn [fst snd ref_obj log_core core_Enabled core_Check sampler_count
         core_level ent_Level log_addCaller log_addStack].
    unfold Enabled, DPanicLevel. split.
    + intros Hlt.
      replace (zapLevel level <=? lvl) with false by (symmetry; lia).
      replace (lvl <? 3) with true by (symmetry; lia). cbn. done.
    + intros Hle.
      replace (zapLevel level <=? lvl) with true by (symmetry; lia).
      rewrite andb_false_r. cbn [snd].
      pose proof (fun w =>
        output_foldl_io_Write E
          (fun c => mkRecord (core_enc c) (mkEntry lvl msg) fields true
                             (ErrorLevel <=? lvl))
          [NewCore consoleEncoder Stdout (zapLevel level)] w st') as Hall.
      split; [|exact Hall]. intros c Hc. rewrite Hall.
      apply elem_of_app. right. apply list_elem_of_fmap. exists c.
      split; [reflexivity|now apply cores_writing_to_self].
  - (* console and file *)
    rewrite install_eq in Hinit. inversion Hinit as [Hst1]. clear Hinit Heq.
    destruct (String.eqb_spec logFile ""); [done|].
    eexists. split; [reflexivity|]. cbn [ref_obj log_core NewTee core_sinks].
    split; [reflexivity|]. split; [repeat constructor|].
    intros st' lvl msg fields Hg.
    rewrite emit_with_logger, (GetLogger_some E _ _ Hg).
    unfold call_log, Logger_log.
    cbn [fst snd ref_obj log_core core_Enabled core_Check sampler_count
         core_level ent_Level log_addCaller log_addStack existsb List.filter].
    unfold Enabled, DPanicLevel. split.
    + intros Hlt.
      replace (zapLevel level <=? lvl) with false by (symmetry; lia).
      replace (lvl <? 3) with true by (symmetry; lia). cbn. done.
    + intros Hle.
      replace (zapLevel level <=? lvl) with true by (symmetry; lia).
      cbn [orb negb]. rewrite andb_false_r. cbn [snd].
      pose proof (fun w =>
        output_foldl_io_Write E
          (fun c => mkRecord (core_enc c) (mkEntry lvl msg) fields true
                             (ErrorLevel <=? lvl))
          [NewCore consoleEncoder Stdout (zapLevel level);
           NewCore fileEncoder (FileWriter logFile) (zapLevel level)]
          w st') as Hall.
      split; [|exact Hall]. intros c Hc. rewrite Hall.
      apply elem_of_app. right. apply list_elem_of_fmap. exists c.
      split; [reflexivity|now apply cores_writing_to_self].
Qed.

Lemma emit_filtered_by_threshold_witness :
  InitLogger env0 "warn" "app.log" init_state
    = (None, snd (InitLogger env0 "warn" "app.log" init_state)) /\
  exists r,
    globalLogger (snd (InitLogger env0 "warn" "app.log" init_state)) = Some r /\
    core_sinks (log_core (ref_obj r)) =
      NewCore consoleEncoder Stdout (zapLevel "warn") ::
      (if String.eqb "app.log" "" then []
       else [NewCore fileEncoder (FileWriter "app.log") (zapLevel "warn")]) /\
    Forall (fun c => core_level c = zapLevel "warn")
           (core_sinks (log_core (ref_obj r))) /\
    forall (st' : State) (lvl : Level) (msg : string) (fields : list Field),
      globalLogger st' = Some r ->
      (lvl < zapLevel "warn" ->
         snd (emit env0 lvl msg fields st') = st' /\
         forall w, output env0 w (snd (emit env0 lvl msg fields st'))
                   = output env0 w st') /\
      (zapLevel "warn" <= lvl ->
         (forall c, c ∈ core_sinks (log_core (ref_obj r)) ->
            mkRecord (core_enc c) (mkEntry lvl msg) fields true
                     (Enabled ErrorLevel lvl)
              ∈ output env0 (core_out c) (snd (emit env0 lvl msg fields st'))) /\
         (forall w,
            output env0 w (snd (emit env0 lvl msg fields st')) =
            output env0 w st' ++
              map (fun c => mkRecord (core_enc c) (mkEntry lvl msg) fields true
                                     (Enabled ErrorLevel lvl))
                  (cores_writing_to env0 w
                     (core_sinks (log_core (ref_obj r)))))).
Proof.
  split; [reflexivity|].
  apply (emit_filtered_by_threshold env0 "warn" "app.log" init_state
           (snd (InitLogger env0 "warn" "app.log" init_state))).
  reflexivity.
Defined.

(** The end-to-end run of the specification: after
    [InitLogger "warn" path], [Debug] and [Info] write nothing, [Warn] and
    [Error] each add one JSON record to the file, with a stack trace on the
    [Error] record only. *)
Example warn_threshold_run :
  let st1 := snd (InitLogger env0 "warn" "/tmp/test.log" init_state) in
  let st2 := snd (Debug env0 "x" [] st1) in
  let st3 := snd (Info env0 "y" [] st2) in
  let st4 := snd (Warn env0 "z" [("k", "v")] st3) in
  let st5 := snd (Error env0 "boom" [] st4) in
  output env0 (FileWriter "/tmp/test.log") st3 = [] /\
  output env0 Stdout st3 = [] /\
  output env0 (FileWriter "/tmp/test.log") st5 =
    [mkRecord fileEncoder (mkEntry WarnLevel "z") [("k", "v")] true false;
     mkRecord fileEncoder (mkEntry ErrorLevel "boom") [] true true] /\
  output env0 Stdout st5 =
    [mkRecord consoleEncoder (mkEntry WarnLevel "z") [("k", "v")] true false;
     mkRecord consoleEncoder (mkEntry ErrorLevel "boom") [] true true].
Proof. vm_compute. repeat split. Qed.

Lemma call_log_helper_outcome (E : Env) (r : LoggerRef) (lvl : Level)
    (msg : string) (fields : list Field) (st : State) :
  lvl = DebugLevel \/ lvl = InfoLevel \/ lvl = WarnLevel \/
  lvl = ErrorLevel \/ lvl = FatalLevel ->
  fst (call_log E (Some r) lvl msg fields st) =
    (if lvl =? FatalLevel then Exited else Returned).
Proof.
  intros Hlvl. cbn [call_log]. rewrite Logger_log_outcome.
  rewrite (after_write_helper_levels _ _ Hlvl).
  destruct Hlvl as [->|[->|[->|[->| ->]]]]; cbn; try done;
    now destruct (core_Enabled _ _).
Qed.

(** ** GetLogger before initialization *)

(** C5: in every state, [GetLogger] returns a non-nil logger and leaves it
    installed, given that [zap.NewProduction] yields a logger when none is
    installed yet (the specification assumes the fallback is built without
    failure); [Debug], [Info], [Warn] and [Error] then return, [Fatal] ends
    the process, and no emit operation through the returned instance
    panics, whatever the state it is used in. *)
Theorem GetLogger_always_usable (E : Env) (st : State) :
  is_Some (globalLogger st) \/ is_Some (fst (zap_NewProduction E)) ->
  exists r,
    fst (GetLogger E st) = Some r /\
    globalLogger (snd (GetLogger E st)) = Some r /\
    forall (msg : string) (fields : list Field),
      fst (Debug E msg fields st) = Returned /\
      fst (Info E msg fields st) = Returned /\
      fst (Warn E msg fields st) = Returned /\
      fst (Error E msg fields st) = Returned /\
      fst (Fatal E msg fields st) = Exited /\
      forall (lvl : Level) (st' : State),
        lvl ∈ [DebugLevel; InfoLevel; WarnLevel; ErrorLevel; FatalLevel] ->
        fst (call_log E (Some r) lvl msg fields st') <> Panicked.
Proof.
  intros H. destruct (GetLogger_usable E st H) as [r Hr].
  exists r. split; [done|]. split; [now rewrite GetLogger_result_installed|].
  intros msg fields.
  destruct (helpers_emit E) as (-> & -> & -> & -> & ->).
  rewrite !emit_with_logger, Hr.
  repeat split; try (rewrite call_log_helper_outcome by tauto; reflexivity).
  intros lvl st' Hlvl.
  rewrite call_log_helper_outcome.
  - now case_match.
  - rewrite !elem_of_cons in Hlvl. rewrite elem_of_nil in Hlvl. tauto.
Qed.

Lemma GetLogger_always_usable_witness :
  exists r,
    fst (GetLogger env0 init_state) = Some r /\
    globalLogger (snd (GetLogger env0 init_state)) = Some r /\
    forall (msg : string) (fields : list Field),
      fst (Debug env0 msg fields init_state) = Returned /\
      fst (Info env0 msg fields init_state) = Returned /\
      fst (Warn env0 msg fields init_state) = Returned /\
      fst (Error env0 msg fields init_state) = Returned /\
      fst (Fatal env0 msg fields init_state) = Exited /\
      forall (lvl : Level) (st' : State),
        lvl ∈ [DebugLevel; InfoLevel; WarnLevel; ErrorLevel; FatalLevel] ->
        fst (call_log env0 (Some r) lvl msg fields st') <> Panicked.
Proof.
  apply (GetLogger_always_usable env0 init_state).
  right. exists productionLogger. reflexivity.
Defined.

(** Where the assumption of C5 stops: if [zap.NewProduction] failed, the
    discarded error would leave [globalLogger] nil, [GetLogger] would
    return nil, and a helper would panic on the nil receiver. *)
Lemma GetLogger_nil_when_fallback_fails (E : Env) (st : State)
    (msg : string) (fields : list Field) :
  globalLogger st = None -> fst (zap_NewProduction E) = None ->
  GetLogger E st = (None, st) /\ Debug E msg fields st = (Panicked, st).
Proof.
  intros Hg Hp. unfold Debug, GetLogger. rewrite Hg, Hp. cbn.
  destruct st; cbn in *; subst; done.
Qed.

Example no_fallback_run :
  GetLogger env_no_fallback init_state = (None, init_state) /\
  Info env_no_fallback "x" [] init_state = (Panicked, init_state).
Proof. split; reflexivity. Qed.

(** ** Fatal *)





(** ** Sync *)

(** C8: [Sync] always returns, whatever the sinks answer to a sync request:
    with a logger installed it forwards the request and drops the error
    [Logger.Sync] reports; with none it leaves the whole state as it is, so
    [globalLogger] stays nil and no fallback is built.  In both cases the
    logger variable and every sink's output are untouched. *)
Theorem Sync_never_fails (E : Env) (st : State) :
  fst (Sync E st) = Returned /\
  globalLogger (snd (Sync E st)) = globalLogger st /\
  next_addr (snd (Sync E st)) = next_addr st /\
  (forall w, output E w (snd (Sync E st)) = output E w st) /\
  match globalLogger st with
  | None => snd (Sync E st) = st
  | Some r => snd (Sync E st) = snd (Logger_Sync E (ref_obj r) st)
  end.
Proof.
  pose proof (Sync_control E st) as (Hg & Hn & _).
  split; [|split; [exact Hg|split; [exact Hn|]]].
  - unfold Sync. destruct (globalLogger st); [|done].
    now destruct (Logger_Sync E _ st).
  - unfold Sync. destruct (globalLogger st) as [r|]; [|done].
    pose proof (Logger_Sync_output E (ref_obj r)) as Hout.
    destruct (Logger_Sync E (ref_obj r) st) eqn:Hs. cbn.
    split; [|done]. intros w. specialize (Hout w st). now rewrite Hs in Hout.
Qed.

(** A sync that fails is swallowed: on a terminal the console sink reports
    an error, and [Sync] still returns. *)
Example Sync_swallows_failure :
  let st := snd (InitLogger env_sync_fails "info" "" init_state) in
  fst (Logger_Sync env_sync_fails
         (zap_New (NewTee [NewCore consoleEncoder Stdout InfoLevel])
                  [AddCaller; AddStacktrace ErrorLevel]) st)
    = Some "sync /dev/stdout: invalid argument" /\
  fst (Sync env_sync_fails st) = Returned /\
  syncs (snd (Sync env_sync_fails st)) = [Stdout] /\
  Sync env_sync_fails init_state = (Returned, init_state).
Proof. vm_compute. repeat split. Qed.

(** ** The fallback and a later InitLogger *)

Section Fallback.

Variable E : Env.

Lemma emit_control (lvl : Level) (msg : string) (fields : list Field)
    (st : State) (r : LoggerRef) :
  globalLogger st = Some r -> same_control st (snd (emit E lvl msg fields st)).
Proof.
  intros Hg. rewrite emit_with_logger, (GetLogger_some E _ _ Hg).
  apply call_log_control.
Qed.

(** Every call but a successful [InitLogger] keeps the installed logger
    and allocates nothing. *)
Lemma run_call_keeps (c : Call) (st : State) (r : LoggerRef) :
  globalLogger st = Some r -> init_succeeds E c = false ->
  same_control st (run_call E c st).
Proof.
  intros Hg Hc. destruct (helpers_emit E) as (HD & HI & HW & HE & HF).
  destruct c as [level logFile| | |msg fs|msg fs|msg fs|msg fs|msg fs];
    cbn [run_call]; rewrite ?HD, ?HI, ?HW, ?HE, ?HF;
    try (eapply emit_control; exact Hg).
  - cbn in Hc. apply orb_false_iff in Hc as [Hne Hopen].
    apply String.eqb_neq in Hne.
    destruct (os_OpenFile E logFile) as [err|] eqn:Ho; [|done].
    rewrite (InitLogger_open_fails E _ _ _ _ Hne Ho). apply same_control_refl.
  - rewrite (GetLogger_some E _ _ Hg). apply same_control_refl.
  - apply Sync_control.
Qed.

Lemma run_keeps (cs : list Call) (st : State) (r : LoggerRef) :
  globalLogger st = Some r ->
  forallb (fun c => negb (init_succeeds E c)) cs = true ->
  same_control st (run E cs st).
Proof.
  revert st. induction cs as [|c cs IH]; intros st Hg Hcs.
  - apply same_control_refl.
  - cbn in Hcs. apply andb_true_iff in Hcs as [Hc Hcs].
    apply negb_true_iff in Hc.
    pose proof (run_call_keeps c st r Hg Hc) as Hk.
    eapply same_control_trans; [exact Hk|].
    apply IH; [|done]. destruct Hk as (-> & _). done.
Qed.

Lemma run_app (cs cs' : list Call) (st : State) :
  run E (cs ++ cs') st = run E cs' (run E cs st).
Proof. apply foldl_app. Qed.

(** A successful [InitLogger] installs a logger at the next free address. *)
Lemma InitLogger_installs_fresh (level logFile : string) (st : State) :
  init_succeeds E (CallInitLogger level logFile) = true ->
  fst (InitLogger E level logFile st) = None /\
  exists r', globalLogger (snd (InitLogger E level logFile st)) = Some r' /\
             ref_addr r' = next_addr st.
Proof.
  intros Hc.
  destruct (InitLogger_cases E level logFile st)
    as [[-> ->]|[(Hne & Hopen & ->)|(Hne & err & Hopen & _)]].
  - rewrite install_eq. split; [done|]. eexists. split; reflexivity.
  - rewrite install_eq. split; [done|]. eexists. split; reflexivity.
  - cbn in Hc. rewrite Hopen in Hc. apply String.eqb_neq in Hne.
    rewrite Hne in Hc. discriminate.
Qed.

End Fallback.

(** C4, as the specification states it: the fallback, once installed,
    survives a later [InitLogger].  It does not: the assignment on line 72
    is unconditional. *)
Lemma fallback_replaced_by_InitLogger :
  globalLogger init_state = None /\
  globalLogger (snd (GetLogger env0 init_state))
    = Some (mkRef 0 productionLogger) /\
  fst (InitLogger env0 "debug" "" (snd (GetLogger env0 init_state))) = None /\
  globalLogger
    (snd (InitLogger env0 "debug" "" (snd (GetLogger env0 init_state))))
    <> globalLogger (snd (GetLogger env0 init_state)).
Proof. repeat split. discriminate. Qed.

(** C4, amended: a fallback installed by [GetLogger] stays the process-wide
    logger through every later [GetLogger], [Sync], emit call and failed
    [InitLogger]; the next successful [InitLogger] replaces it with a new
    instance. *)
Theorem fallback_kept_until_InitLogger (E : Env) (st0 st1 : State)
    (r : LoggerRef) (cs : list Call) :
  globalLogger st0 = None ->
  GetLogger E st0 = (Some r, st1) ->
  forallb (fun c => negb (init_succeeds E c)) cs = true ->
  globalLogger (run E cs st1) = Some r /\
  forall level logFile,
    init_succeeds E (CallInitLogger level logFile) = true ->
    exists r',
      globalLogger (run E (cs ++ [CallInitLogger level logFile]) st1)
        = Some r' /\
      ref_addr r' <> ref_addr r /\ r' <> r.
Proof.
  intros Hnil Hget Hcs.
  assert (globalLogger st1 = Some r) as Hg1.
  { pose proof (GetLogger_result_installed E st0) as H.
    now rewrite Hget in H. }
  assert (ref_addr r < next_addr st1)%nat as Hlt.
  { unfold GetLogger in Hget. rewrite Hnil in Hget.
    destruct (fst (zap_NewProduction E)); cbn in Hget; [|congruence].
    inversion Hget; subst. cbn. lia. }
  destruct (run_keeps E cs st1 r Hg1 Hcs) as (Hg & Hn & _).
  split; [congruence|]. intros level logFile Hinit.
  rewrite run_app. cbn [run foldl run_call].
  destruct (InitLogger_installs_fresh E level logFile (run E cs st1) Hinit)
    as (_ & r' & Hr' & Haddr).
  exists r'. split; [exact Hr'|].
  assert (ref_addr r' <> ref_addr r) as Hne by (rewrite Haddr, Hn; lia).
  split; [exact Hne|]. intros ->. now apply Hne.
Qed.

Lemma fallback_kept_until_InitLogger_witness :
  globalLogger
    (run env0 [CallInfo "started" []; CallSync; CallGetLogger;
               CallInitLogger "info" "/missing/app.log"]
         (snd (GetLogger env0 init_state)))
    = Some (mkRef 0 productionLogger) /\
  forall level logFile,
    init_succeeds env0 (CallInitLogger level logFile) = true ->
    exists r',
      globalLogger
        (run env0 ([CallInfo "started" []; CallSync; CallGetLogger;
                    CallInitLogger "info" "/missing/app.log"]
                   ++ [CallInitLogger level logFile])
             (snd (GetLogger env0 init_state)))
        = Some r' /\
      ref_addr r' <> ref_addr (mkRef 0 productionLogger) /\
      r' <> mkRef 0 productionLogger.
Proof.
  apply (fallback_kept_until_InitLogger env0 init_state
           (snd (GetLogger env0 init_state)) (mkRef 0 productionLogger)).
  - reflexivity.
  - reflexivity.
  - vm_compute. reflexivity.
Defined.

(** ** Concurrent first use *)

Section ConcurrentFacts.

Import Concurrent.

Variable E : Env.











End ConcurrentFacts.




(** * Further properties of the package *)

(** ** Helper lemmas *)

Section MoreFacts.

Variable E : Env.

Lemma InitLogger_result (level logFile : string) (st : State) :
  init_succeeds E (CallInitLogger level logFile) = true ->
  InitLogger E level logFile st =
  (None,
   set_global (Some (mkRef (next_addr (if String.eqb logFile "" then st
                                        else open_append E logFile st))
                           (InitLogger_logger level logFile)))
     (snd (alloc (InitLogger_logger level logFile)
                 (if String.eqb logFile "" then st
                  else open_append E logFile st)))).
Proof.
  intros Hc. unfold InitLogger_logger, InitLogger_cores.
  destruct (InitLogger_cases E level logFile st)
    as [[-> ->]|[(Hne & Hopen & ->)|(Hne & err & Hopen & _)]].
  - reflexivity.
  - apply String.eqb_neq in Hne. rewrite Hne. reflexivity.
  - cbn in Hc. rewrite Hopen in Hc. apply String.eqb_neq in Hne.
    rewrite Hne in Hc. discriminate.
Qed.

Lemma InitLogger_failure (level logFile : string) (st : State) :
  init_succeeds E (CallInitLogger level logFile) = false ->
  snd (InitLogger E level logFile st) = st.
Proof.
  intros Hc. cbn in Hc. apply orb_false_iff in Hc as [Hne Hopen].
  apply String.eqb_neq in Hne.
  destruct (os_OpenFile E logFile) as [err|] eqn:Ho; [|done].
  now rewrite (InitLogger_open_fails E _ _ _ _ Hne Ho).
Qed.

Lemma output_open_append (w : WriteSyncer) (path : string) (st : State) :
  output E w (open_append E path st) = output E w st.
Proof.
  unfold output, open_append. cbn [files].
  destruct (files st !! os_dest E (FileWriter path)) eqn:Hp; [done|].
  destruct (decide (os_dest E (FileWriter path) = os_dest E w)) as [Heq|Hne].
  - rewrite <- Heq, lookup_insert_eq, Hp. done.
  - now rewrite lookup_insert_ne.
Qed.

Lemma output_GetLogger (w : WriteSyncer) (st : State) :
  output E w (snd (GetLogger E st)) = output E w st.
Proof.
  unfold GetLogger. destruct (globalLogger st); [done|].
  now destruct (fst (zap_NewProduction E)).
Qed.

Lemma handles_GetLogger (st : State) :
  handles (snd (GetLogger E st)) = handles st.
Proof.
  unfold GetLogger. destruct (globalLogger st); [done|].
  now destruct (fst (zap_NewProduction E)).
Qed.

Lemma output_io_Write_prefix (r : Record_) (c : ioCore) (w : WriteSyncer)
    (st : State) :
  output E w st `prefix_of` output E w (io_Write E r c st).
Proof. rewrite output_io_Write. now apply prefix_app_r. Qed.

Lemma output_foldl_io_Write_prefix (mk : ioCore -> Record_)
    (cs : list ioCore) (w : WriteSyncer) (st : State) :
  output E w st `prefix_of`
  output E w (foldl (fun s c => io_Write E (mk c) c s) st cs).
Proof. rewrite output_foldl_io_Write. now apply prefix_app_r. Qed.

Lemma output_foldl_io_Write_other (mk : ioCore -> Record_)
    (cs : list ioCore) (w : WriteSyncer) (st : State) :
  Forall (fun c => os_dest E (core_out c) <> os_dest E w) cs ->
  output E w (foldl (fun s c => io_Write E (mk c) c s) st cs) = output E w st.
Proof.
  revert st. induction cs as [|c cs IH]; intros st Hall; cbn; [done|].
  inversion Hall; subst. rewrite IH by done.
  now apply output_io_Write_other.
Qed.

Lemma output_call_log_prefix (l : option LoggerRef) (lvl : Level)
    (msg : string) (fields : list Field) (w : WriteSyncer) (st : State) :
  output E w st `prefix_of` output E w (snd (call_log E l lvl msg fields st)).
Proof.
  destruct l as [r|]; cbn; [|done]. unfold Logger_log.
  case_match; cbn [snd]; [done|].
  rewrite <- (output_sampler_count E (log_core (ref_obj r)) lvl w st) at 1.
  apply output_foldl_io_Write_prefix.
Qed.

(** What an emit does through a logger built by [InitLogger]: under the
    level nothing, from the level on a write to each core in turn. *)
Lemma emit_InitLogger_logger (r : LoggerRef) (level logFile : string)
    (lvl : Level) (msg : string) (fields : list Field) (st : State) :
  globalLogger st = Some r ->
  ref_obj r = InitLogger_logger level logFile ->
  snd (emit E lvl msg fields st) =
  if zapLevel level <=? lvl
  then foldl (fun s c => io_Write E (record_for (ref_obj r) lvl msg fields c) c s)
             st (InitLogger_cores level logFile)
  else st.
Proof.
  intros Hg Hobj. pose proof (zapLevel_range level) as Hrange.
  unfold DebugLevel, ErrorLevel in Hrange.
  rewrite emit_with_logger, (GetLogger_some E _ _ Hg).
  cbn [fst snd call_log]. unfold Logger_log, record_for. rewrite !Hobj.
  unfold InitLogger_logger, InitLogger_cores.
  destruct (String.eqb logFile "");
    cbn [NewTee zap_New foldl applyOption log_core log_addCaller log_addStack
         core_Enabled core_Check sampler_count core_level ent_Level existsb
         List.filter];
    unfold Enabled, DPanicLevel;
    destruct (Z.leb_spec (zapLevel level) lvl).
  - rewrite andb_false_r. reflexivity.
  - replace (lvl <? 3) with true by (symmetry; lia). reflexivity.
  - cbn [orb negb]. rewrite andb_false_r. reflexivity.
  - replace (lvl <? 3) with true by (symmetry; lia). reflexivity.
Qed.

Lemma run_cons (c : Call) (cs : list Call) (st : State) :
  run E (c :: cs) st = run E cs (run_call E c st).
Proof. reflexivity. Qed.

End MoreFacts.

(** ** Sinks only grow *)

Lemma run_call_output_prefix (E : Env) (c : Call) (w : WriteSyncer)
    (st : State) :
  output E w st `prefix_of` output E w (run_call E c st).
Proof.
  destruct (helpers_emit E) as (HD & HI & HW & HE & HF).
  assert (forall lvl msg fs,
            output E w st `prefix_of` output E w (snd (emit E lvl msg fs st)))
    as Hemit.
  { intros lvl msg fs. rewrite emit_with_logger.
    rewrite <- (output_GetLogger E w st) at 1. apply output_call_log_prefix. }
  destruct c as [level logFile| | |msg fs|msg fs|msg fs|msg fs|msg fs];
    cbn [run_call]; rewrite ?HD, ?HI, ?HW, ?HE, ?HF; try apply Hemit.
  - destruct (init_succeeds E (CallInitLogger level logFile)) eqn:Hc.
    + rewrite (InitLogger_result E _ _ _ Hc). cbn [snd].
      destruct (String.eqb logFile "").
      * done.
      * rewrite <- (output_open_append E w logFile st) at 1. done.
    + now rewrite (InitLogger_failure E _ _ _ Hc).
  - now rewrite output_GetLogger.
  - unfold Sync. destruct (globalLogger st) as [r|]; [|done].
    pose proof (Logger_Sync_output E (ref_obj r) w st) as Hout.
    destruct (Logger_Sync E (ref_obj r) st). cbn in *. now rewrite Hout.
Qed.

(** X1: no call of the package ever removes or rewrites what a sink has
    received: across any run, the output of every sink (the console, the
    standard error stream, every file) extends what it was before. *)
Theorem outputs_append_only (E : Env) (cs : list Call) (w : WriteSyncer)
    (st : State) :
  output E w st `prefix_of` output E w (run E cs st).
Proof.
  revert st. induction cs as [|c cs IH]; intros st; [done|].
  rewrite run_cons. etrans; [apply run_call_output_prefix|apply IH].
Qed.

(** ** Files are opened and never closed *)

Lemma run_call_handles (E : Env) (c : Call) (st : State) :
  handles (run_call E c st) =
  handles st ++ option_list (opened_path E c).
Proof.
  destruct (helpers_emit E) as (HD & HI & HW & HE & HF).
  assert (forall lvl msg fs,
            handles (snd (emit E lvl msg fs st)) = handles st ++ []) as Hemit.
  { intros lvl msg fs. rewrite emit_with_logger, app_nil_r.
    destruct (call_log_control E (fst (GetLogger E st)) lvl msg fs
                (snd (GetLogger E st))) as (_ & _ & ->).
    apply handles_GetLogger. }
  destruct c as [level logFile| | |msg fs|msg fs|msg fs|msg fs|msg fs];
    cbn [run_call opened_path option_list];
    rewrite ?HD, ?HI, ?HW, ?HE, ?HF; try apply Hemit.
  - destruct (init_succeeds E (CallInitLogger level logFile)) eqn:Hc.
    + rewrite (InitLogger_result E _ _ _ Hc). cbn [snd]. cbn in Hc.
      destruct (String.eqb logFile ""); cbn in *; [now rewrite app_nil_r|].
      now destruct (os_OpenFile E logFile).
    + rewrite (InitLogger_failure E _ _ _ Hc). cbn in Hc.
      apply orb_false_iff in Hc as [-> Hopen]. cbn.
      destruct (os_OpenFile E logFile); [|done]. now rewrite app_nil_r.
  - now rewrite handles_GetLogger, app_nil_r.
  - destruct (Sync_control E st) as (_ & _ & ->). now rewrite app_nil_r.
Qed.

(** X2: the open file handles after a run are the handles before it
    followed by one handle for each [InitLogger] call that opened its file,
    in call order.  No call closes a handle, and initializing again, even
    with the same path, adds a handle and leaves the earlier one open. *)
Theorem handles_accumulate (E : Env) (cs : list Call) (st : State) :
  handles (run E cs st) = handles st ++ omap (opened_path E) cs.
Proof.
  revert st. induction cs as [|c cs IH]; intros st.
  - cbn. now rewrite app_nil_r.
  - rewrite run_cons, IH, run_call_handles, <- app_assoc. f_equal.
    cbn [omap list_omap]. now destruct (opened_path E c).
Qed.

(** ** The logger variable is never reset *)

Lemma run_call_keeps_installed (E : Env) (c : Call) (st : State) :
  is_Some (globalLogger st) -> is_Some (globalLogger (run_call E c st)).
Proof.
  intros [r Hg].
  destruct (init_succeeds E c) eqn:Hc.
  - destruct c; try discriminate. cbn [run_call].
    rewrite (InitLogger_result E _ _ _ Hc). cbn. eauto.
  - destruct (run_call_keeps E c st r Hg Hc) as (-> & _). eauto.
Qed.

(** X3: once [globalLogger] holds a logger, no sequence of calls makes it
    nil again, whatever the environment does (failed opens, failed syncs, a
    failing [zap.NewProduction]). *)
Theorem globalLogger_never_reset (E : Env) (cs : list Call) (st : State) :
  is_Some (globalLogger st) -> is_Some (globalLogger (run E cs st)).
Proof.
  revert st. induction cs as [|c cs IH]; intros st Hg; [done|].
  rewrite run_cons. apply IH. now apply run_call_keeps_installed.
Qed.

Lemma globalLogger_never_reset_witness :
  is_Some (globalLogger
             (run env_no_fallback
                  [CallSync; CallInitLogger "info" ""; CallGetLogger;
                   CallError "boom" []; CallSync]
                  (snd (InitLogger env_no_fallback "debug" "a.log"
                                   init_state)))).
Proof.
  apply (globalLogger_never_reset env_no_fallback).
  eexists. reflexivity.
Defined.

(** ** InitLogger and the files *)

(** X4: [InitLogger] writes no record anywhere: after the call, successful
    or not, every sink holds what it held.  A call that opens its file
    leaves the file existing with its previous content (empty when it was
    absent: created, never truncated) and touches no other file; a call
    that opens none leaves the file system as it was.  Files are taken by
    identity, so two paths that name one file count as that file. *)
Theorem InitLogger_writes_nothing (E : Env) (level logFile : string)
    (st : State) :
  (forall w, output E w (snd (InitLogger E level logFile st)) = output E w st) /\
  match opened_path E (CallInitLogger level logFile) with
  | Some p =>
      files (snd (InitLogger E level logFile st)) !! os_dest E (FileWriter p)
        = Some (default [] (files st !! os_dest E (FileWriter p))) /\
      forall q, q <> os_dest E (FileWriter p) ->
        files (snd (InitLogger E level logFile st)) !! q = files st !! q
  | None => files (snd (InitLogger E level logFile st)) = files st
  end.
Proof.
  destruct (init_succeeds E (CallInitLogger level logFile)) eqn:Hc.
  - rewrite (InitLogger_result E _ _ _ Hc). cbn [snd]. cbn in Hc.
    cbn [opened_path].
    destruct (String.eqb logFile "") eqn:He; cbn [negb orb] in *.
    + split; [done|done].
    + destruct (os_OpenFile E logFile); [discriminate|].
      split.
      * intros w. rewrite <- (output_open_append E w logFile st). done.
      * cbn [alloc snd set_global open_append files next_addr].
        destruct (files st !! os_dest E (FileWriter logFile)) eqn:Hf.
        -- split; [done|]. done.
        -- split; [now rewrite lookup_insert_eq|].
           intros q Hq. now rewrite lookup_insert_ne.
  - rewrite (InitLogger_failure E _ _ _ Hc). split; [done|].
    cbn in Hc |- *. apply orb_false_iff in Hc as [-> Hopen]. cbn.
    now destruct (os_OpenFile E logFile).
Qed.

(** ** Which sinks an emit reaches *)

Section Reach.

Variable E : Env.

Lemma InitLogger_success (level logFile : string) (st st1 : State) :
  InitLogger E level logFile st = (None, st1) ->
  exists r, globalLogger st1 = Some r /\
            ref_obj r = InitLogger_logger level logFile.
Proof.
  intros Hinit.
  destruct (init_succeeds E (CallInitLogger level logFile)) eqn:Hc.
  - rewrite (InitLogger_result E _ _ _ Hc) in Hinit.
    inversion Hinit; subst. eexists. split; reflexivity.
  - cbn in Hc. apply orb_false_iff in Hc as [Hne Hopen].
    apply String.eqb_neq in Hne.
    destruct (os_OpenFile E logFile) as [err|] eqn:Ho; [|done].
    rewrite (InitLogger_open_fails E _ _ _ _ Hne Ho) in Hinit. discriminate.
Qed.

(** What every destination holds after an emit through a logger built by
    [InitLogger]. *)
Lemma emit_InitLogger_output (level logFile : string) (st st1 st' : State)
    (lvl : Level) (msg : string) (fields : list Field) (w : WriteSyncer) :
  InitLogger E level logFile st = (None, st1) ->
  globalLogger st' = globalLogger st1 ->
  output E w (snd (emit E lvl msg fields st')) =
  output E w st' ++
    (if zapLevel level <=? lvl
     then map (fun c => mkRecord (core_enc c) (mkEntry lvl msg) fields true
                                 (ErrorLevel <=? lvl))
              (cores_writing_to E w (InitLogger_cores level logFile))
     else []).
Proof.
  intros Hinit Hg.
  destruct (InitLogger_success _ _ _ _ Hinit) as (r & Hr & Hobj).
  rewrite Hr in Hg.
  rewrite (emit_InitLogger_logger E r level logFile _ _ _ _ Hg Hobj).
  destruct (zapLevel level <=? lvl); [|now rewrite app_nil_r].
  rewrite output_foldl_io_Write. unfold record_for. rewrite Hobj.
  reflexivity.
Qed.

(** The records the console receives from one entry: the console line,
    then the file sink's line when the log file is the console itself. *)
Lemma console_records (level logFile : string) (mk : ioCore -> Record_) :
  map mk (cores_writing_to E Stdout (InitLogger_cores level logFile)) =
  mk (NewCore consoleEncoder Stdout (zapLevel level)) ::
  (if negb (String.eqb logFile "") &&
      String.eqb (os_dest E (FileWriter logFile)) (os_dest E Stdout)
   then [mk (NewCore fileEncoder (FileWriter logFile) (zapLevel level))]
   else []).
Proof.
  unfold cores_writing_to, InitLogger_cores, consoleWriter.
  cbn [List.filter core_out]. rewrite String.eqb_refl.
  destruct (String.eqb logFile ""); cbn [negb andb map List.filter core_out];
    [reflexivity|].
  now destruct (String.eqb (os_dest E (FileWriter logFile)) (os_dest E Stdout)).
Qed.

End Reach.

(** X5: a logger installed by [InitLogger level logFile] writes to the
    destinations of its own sinks only.  An emit at any level leaves every
    writer of another destination as it was: standard error when it is
    neither the console nor the log file, and every other file, such as the
    file of an earlier [InitLogger] call whose logger was replaced. *)
Theorem emit_reaches_configured_sinks_only (E : Env) (level logFile : string)
    (st st1 st' : State) (lvl : Level) (msg : string) (fields : list Field)
    (w : WriteSyncer) :
  InitLogger E level logFile st = (None, st1) ->
  globalLogger st' = globalLogger st1 ->
  os_dest E w ∉ map (fun c => os_dest E (core_out c))
                    (InitLogger_cores level logFile) ->
  output E w (snd (emit E lvl msg fields st')) = output E w st'.
Proof.
  intros Hinit Hg Hw.
  rewrite (emit_InitLogger_output E _ _ _ _ _ _ _ _ _ Hinit Hg).
  destruct (zapLevel level <=? lvl); [|now rewrite app_nil_r].
  replace (cores_writing_to E w (InitLogger_cores level logFile)) with
    (@nil ioCore); [now rewrite app_nil_r|].
  symmetry. unfold cores_writing_to.
  induction (InitLogger_cores level logFile) as [|c cs IH]; [done|].
  cbn [List.filter]. cbn [map] in Hw. apply not_elem_of_cons in Hw as [Hc Hcs].
  destruct (String.eqb_spec (os_dest E (core_out c)) (os_dest E w)); [congruence|].
  now apply IH.
Qed.

Lemma emit_reaches_configured_sinks_only_witness :
  output env0 (FileWriter "old.log")
         (snd (emit env0 ErrorLevel "boom" []
                 (snd (InitLogger env0 "info" "new.log"
                         (snd (InitLogger env0 "info" "old.log" init_state))))))
  = output env0 (FileWriter "old.log")
           (snd (InitLogger env0 "info" "new.log"
                   (snd (InitLogger env0 "info" "old.log" init_state)))).
Proof.
  apply (emit_reaches_configured_sinks_only env0 "info" "new.log"
           (snd (InitLogger env0 "info" "old.log" init_state))
           (snd (InitLogger env0 "info" "new.log"
                   (snd (InitLogger env0 "info" "old.log" init_state))))).
  - reflexivity.
  - reflexivity.
  - vm_compute. intros H. inversion H as [|? ? ? H1]; subst.
    inversion H1 as [|? ? ? H2]; subst. inversion H2.
Defined.

(** X6: no level text silences errors.  Whatever [level] was passed to a
    successful [InitLogger], a record at [ErrorLevel] or above (so every
    [Error] and [Fatal] record) appears in the output of each configured
    sink with the caller and a stack trace attached: every destination
    holds what it held followed by the records of the sinks that write to
    it. *)
Theorem errors_reach_every_sink (E : Env) (level logFile : string)
    (st st1 st' : State) (lvl : Level) (msg : string) (fields : list Field)
    (c : ioCore) :
  InitLogger E level logFile st = (None, st1) ->
  globalLogger st' = globalLogger st1 ->
  ErrorLevel <= lvl ->
  c ∈ InitLogger_cores level logFile ->
  mkRecord (core_enc c) (mkEntry lvl msg) fields true true
    ∈ output E (core_out c) (snd (emit E lvl msg fields st')) /\
  forall w,
    output E w (snd (emit E lvl msg fields st')) =
    output E w st' ++
      map (fun c => mkRecord (core_enc c) (mkEntry lvl msg) fields true true)
          (cores_writing_to E w (InitLogger_cores level logFile)).
Proof.
  intros Hinit Hg Hlvl Hc.
  pose proof (zapLevel_range level) as Hrange.
  assert (forall w,
            output E w (snd (emit E lvl msg fields st')) =
            output E w st' ++
              map (fun c => mkRecord (core_enc c) (mkEntry lvl msg) fields
                                     true true)
                  (cores_writing_to E w (InitLogger_cores level logFile)))
    as Hall.
  { intros w. rewrite (emit_InitLogger_output E _ _ _ _ _ _ _ _ _ Hinit Hg).
    replace (zapLevel level <=? lvl) with true by (symmetry; lia).
    now replace (ErrorLevel <=? lvl) with true by (symmetry; lia). }
  split; [|exact Hall]. rewrite Hall. apply elem_of_app. right.
  apply list_elem_of_fmap. exists c.
  split; [reflexivity|now apply cores_writing_to_self].
Qed.

Lemma errors_reach_every_sink_witness :
  mkRecord fileEncoder (mkEntry FatalLevel "stop") [("code", "7")] true true
    ∈ output env0 (FileWriter "app.log")
        (snd (emit env0 FatalLevel "stop" [("code", "7")]
                (snd (InitLogger env0 "error" "app.log" init_state)))) /\
  forall w,
    output env0 w
      (snd (emit env0 FatalLevel "stop" [("code", "7")]
              (snd (InitLogger env0 "error" "app.log" init_state)))) =
    output env0 w (snd (InitLogger env0 "error" "app.log" init_state)) ++
      map (fun c => mkRecord (core_enc c) (mkEntry FatalLevel "stop")
                             [("code", "7")] true true)
          (cores_writing_to env0 w (InitLogger_cores "error" "app.log")).
Proof.
  apply (errors_reach_every_sink env0 "error" "app.log" init_state
           (snd (InitLogger env0 "error" "app.log" init_state))
           (snd (InitLogger env0 "error" "app.log" init_state))
           FatalLevel "stop" [("code", "7")]
           (NewCore fileEncoder (FileWriter "app.log") (zapLevel "error"))).
  - reflexivity.
  - reflexivity.
  - vm_compute. discriminate.
  - vm_compute. right. left.
Defined.

(** X7: which level texts let the lower helpers through.  After a
    successful [InitLogger level logFile] the console receives a [Debug]
    record only when [level] is exactly "debug", an [Info] record unless
    [level] is "warn" or "error", and a [Warn] record unless [level] is
    "error"; a helper that is filtered leaves the console as it was.  What
    the console receives is the console line, without stack trace, followed
    by the file sink's line when the log file is the console itself. *)
Theorem helpers_by_level_text (E : Env) (level logFile : string)
    (st st1 st' : State) (msg : string) (fields : list Field) :
  InitLogger E level logFile st = (None, st1) ->
  globalLogger st' = globalLogger st1 ->
  let lines lvl :=
    mkRecord consoleEncoder (mkEntry lvl msg) fields true false ::
    (if negb (String.eqb logFile "") &&
        String.eqb (os_dest E (FileWriter logFile)) (os_dest E Stdout)
     then [mkRecord fileEncoder (mkEntry lvl msg) fields true false]
     else []) in
  output E Stdout (snd (Debug E msg fields st')) =
    output E Stdout st' ++
    (if String.eqb level "debug" then lines DebugLevel else []) /\
  output E Stdout (snd (Info E msg fields st')) =
    output E Stdout st' ++
    (if String.eqb level "warn" || String.eqb level "error"
     then [] else lines InfoLevel) /\
  output E Stdout (snd (Warn E msg fields st')) =
    output E Stdout st' ++
    (if String.eqb level "error" then [] else lines WarnLevel).
Proof.
  intros Hinit Hg lines.
  destruct (helpers_emit E) as (-> & -> & -> & _ & _).
  rewrite !(emit_InitLogger_output E _ _ _ _ _ _ _ _ _ Hinit Hg).
  rewrite !console_records. cbn [core_enc].
  change (ErrorLevel <=? DebugLevel) with false.
  change (ErrorLevel <=? InfoLevel) with false.
  change (ErrorLevel <=? WarnLevel) with false.
  fold (lines DebugLevel). fold (lines InfoLevel). fold (lines WarnLevel).
  clearbody lines. unfold zapLevel.
  destruct (String.eqb level "debug") eqn:Hd.
  { apply String.eqb_eq in Hd as ->. repeat split. }
  destruct (String.eqb level "info") eqn:Hi.
  { apply String.eqb_eq in Hi as ->. repeat split. }
  destruct (String.eqb level "warn") eqn:Hw.
  { apply String.eqb_eq in Hw as ->. repeat split. }
  destruct (String.eqb level "error") eqn:He.
  { apply String.eqb_eq in He as ->. repeat split. }
  repeat split.
Qed.

Lemma helpers_by_level_text_witness :
  let st1 := snd (InitLogger env0 "warn" "/dev/stdout" init_state) in
  let lines lvl :=
    mkRecord consoleEncoder (mkEntry lvl "x") [] true false ::
    (if negb (String.eqb "/dev/stdout" "") &&
        String.eqb (os_dest env0 (FileWriter "/dev/stdout"))
                   (os_dest env0 Stdout)
     then [mkRecord fileEncoder (mkEntry lvl "x") [] true false]
     else []) in
  output env0 Stdout (snd (Debug env0 "x" [] st1)) =
    output env0 Stdout st1 ++
    (if String.eqb "warn" "debug" then lines DebugLevel else []) /\
  output env0 Stdout (snd (Info env0 "x" [] st1)) =
    output env0 Stdout st1 ++
    (if String.eqb "warn" "warn" || String.eqb "warn" "error"
     then [] else lines InfoLevel) /\
  output env0 Stdout (snd (Warn env0 "x" [] st1)) =
    output env0 Stdout st1 ++
    (if String.eqb "warn" "error" then [] else lines WarnLevel).
Proof.
  apply (helpers_by_level_text env0 "warn" "/dev/stdout" init_state
           (snd (InitLogger env0 "warn" "/dev/stdout" init_state))).
  - reflexivity.
  - reflexivity.
Defined.

(** ** What Sync asks of the sinks *)

Lemma foldl_ws_sync (cs : list ioCore) (st : State) :
  syncs (foldl (fun s c => ws_sync (core_out c) s) st cs)
    = syncs st ++ map core_out cs /\
  files (foldl (fun s c => ws_sync (core_out c) s) st cs) = files st.
Proof.
  revert st. induction cs as [|c cs IH]; intros st; cbn [foldl map].
  - now rewrite app_nil_r.
  - destruct (IH (ws_sync (core_out c) st)) as [-> ->]. cbn.
    now rewrite <- app_assoc.
Qed.

(** X8: [Sync] sends one sync request to each sink of the installed logger,
    in the order the sinks were configured, and nothing else: it writes to
    no file, closes no handle, and with no logger installed it sends no
    request at all. *)
Theorem Sync_requests (E : Env) (st : State) :
  syncs (snd (Sync E st)) =
    syncs st ++
    match globalLogger st with
    | Some r => map core_out (core_sinks (log_core (ref_obj r)))
    | None => []
    end /\
  files (snd (Sync E st)) = files st /\
  handles (snd (Sync E st)) = handles st.
Proof.
  destruct (Sync_control E st) as (_ & _ & Hh).
  split; [|split; [|exact Hh]]; unfold Sync;
    destruct (globalLogger st) as [r|]; cbn; try now rewrite ?app_nil_r.
  - apply foldl_ws_sync.
  - apply foldl_ws_sync.
Qed.

(** ** Emitting before initialization *)

(** X9: a helper called while no logger is installed installs the fallback
    as a side effect: after [Debug], [Info], [Warn], [Error] or [Fatal] the
    variable holds the logger [zap.NewProduction] returned, at a new
    address, exactly as after a [GetLogger] call. *)
Theorem emit_installs_fallback (E : Env) (st : State) (log : Logger)
    (msg : string) (fields : list Field) :
  globalLogger st = None ->
  fst (zap_NewProduction E) = Some log ->
  let installed := Some (mkRef (next_addr st) log) in
  globalLogger (snd (GetLogger E st)) = installed /\
  globalLogger (snd (Debug E msg fields st)) = installed /\
  globalLogger (snd (Info E msg fields st)) = installed /\
  globalLogger (snd (Warn E msg fields st)) = installed /\
  globalLogger (snd (Error E msg fields st)) = installed /\
  globalLogger (snd (Fatal E msg fields st)) = installed.
Proof.
  intros Hg Hp installed.
  assert (globalLogger (snd (GetLogger E st)) = installed) as Hget.
  { unfold GetLogger. now rewrite Hg, Hp. }
  assert (forall lvl, globalLogger (snd (emit E lvl msg fields st)) = installed)
    as Hemit.
  { intros lvl. rewrite emit_with_logger.
    destruct (call_log_control E (fst (GetLogger E st)) lvl msg fields
                (snd (GetLogger E st))) as (-> & _). exact Hget. }
  destruct (helpers_emit E) as (-> & -> & -> & -> & ->).
  repeat split; auto.
Qed.

Lemma emit_installs_fallback_witness :
  let installed := Some (mkRef (next_addr init_state) productionLogger) in
  globalLogger (snd (GetLogger env0 init_state)) = installed /\
  globalLogger (snd (Debug env0 "x" [] init_state)) = installed /\
  globalLogger (snd (Info env0 "x" [] init_state)) = installed /\
  globalLogger (snd (Warn env0 "x" [] init_state)) = installed /\
  globalLogger (snd (Error env0 "x" [] init_state)) = installed /\
  globalLogger (snd (Fatal env0 "x" [] init_state)) = installed.
Proof.
  apply (emit_installs_fallback env0 init_state productionLogger "x" []).
  - reflexivity.
  - reflexivity.
Defined.

(** ** The last InitLogger decides *)

(** X10: the logger in force is the one built by the last successful
    [InitLogger] call.  Whatever ran before it (a fallback installed by an
    early emit, earlier initializations with other levels or files) and
    whatever other calls follow it, the installed logger has exactly the
    cores, level and options of that call: earlier sinks are dropped, not
    merged. *)
Theorem last_InitLogger_decides (E : Env) (cs cs' : list Call)
    (level logFile : string) (st : State) :
  init_succeeds E (CallInitLogger level logFile) = true ->
  forallb (fun c => negb (init_succeeds E c)) cs' = true ->
  exists r,
    globalLogger (run E (cs ++ CallInitLogger level logFile :: cs') st)
      = Some r /\
    ref_obj r = InitLogger_logger level logFile /\
    core_sinks (log_core (ref_obj r)) = InitLogger_cores level logFile.
Proof.
  intros Hc Hcs'. rewrite run_app, run_cons. cbn [run_call].
  rewrite (InitLogger_result E _ _ _ Hc). cbn [snd].
  set (st1 := if String.eqb logFile "" then run E cs st
              else open_append E logFile (run E cs st)).
  set (r := mkRef (next_addr st1) (InitLogger_logger level logFile)).
  set (st2 := set_global (Some r)
                (snd (alloc (InitLogger_logger level logFile) st1))).
  exists r. split; [|split].
  - destruct (run_keeps E cs' st2 r eq_refl Hcs') as (-> & _). reflexivity.
  - reflexivity.
  - unfold r, InitLogger_logger, InitLogger_cores. cbn [ref_obj].
    clear. destruct (String.eqb logFile ""); reflexivity.
Qed.

Lemma last_InitLogger_decides_witness :
  exists r,
    globalLogger
      (run env0 ([CallInfo "early" []; CallInitLogger "debug" "a.log"]
                 ++ CallInitLogger "error" ""
                 :: [CallWarn "w" []; CallInitLogger "info" "/missing/app.log";
                     CallSync])
           init_state)
      = Some r /\
    ref_obj r = InitLogger_logger "error" "" /\
    core_sinks (log_core (ref_obj r)) = InitLogger_cores "error" "".
Proof.
  apply (last_InitLogger_decides env0
           [CallInfo "early" []; CallInitLogger "debug" "a.log"]
           [CallWarn "w" []; CallInitLogger "info" "/missing/app.log";
            CallSync]
           "error" "" init_state).
  - reflexivity.
  - vm_compute. reflexivity.
Defined.

(** ** Concurrent use after initialization *)

Lemma step_after_init (E : Env) (r : LoggerRef) (c : Concurrent.Conf)
    (i : nat) :
  globalLogger (Concurrent.shared c) = Some r ->
  Forall (fun pc => pc = Concurrent.AtCheck \/ pc = Concurrent.AtReturn \/
                    pc = Concurrent.Done (Some r)) (Concurrent.threads c) ->
  Concurrent.shared (Concurrent.step E c i) = Concurrent.shared c /\
  Forall (fun pc => pc = Concurrent.AtCheck \/ pc = Concurrent.AtReturn \/
                    pc = Concurrent.Done (Some r))
         (Concurrent.threads (Concurrent.step E c i)).
Proof.
  intros Hg Hall. unfold Concurrent.step.
  destruct (Concurrent.threads c !! i) as [pc|] eqn:Hi; [|done].
  pose proof (Forall_lookup_1 _ _ _ _ Hall Hi) as [->|[->| ->]];
    cbn [Concurrent.step_thread]; rewrite ?Hg; cbn;
    (split; [done|]); apply Forall_insert; auto.
Qed.

(** X11: when a logger is installed before the concurrent calls start, as
    after an [InitLogger] at program start, the unlocked [GetLogger] is
    harmless: in every interleaving of any number of callers no caller
    reaches the construction on line 81, the shared state is never
    written, and every caller that returns holds the installed instance. *)
Theorem concurrent_use_after_init (E : Env) (st : State) (r : LoggerRef)
    (n : nat) (sched : list nat) :
  globalLogger st = Some r ->
  Concurrent.shared (Concurrent.exec E sched (Concurrent.start n st)) = st /\
  Forall (fun pc => pc = Concurrent.AtCheck \/ pc = Concurrent.AtReturn \/
                    pc = Concurrent.Done (Some r))
         (Concurrent.threads
            (Concurrent.exec E sched (Concurrent.start n st))).
Proof.
  intros Hg.
  assert (forall c,
            Concurrent.shared c = st ->
            Forall (fun pc => pc = Concurrent.AtCheck \/
                              pc = Concurrent.AtReturn \/
                              pc = Concurrent.Done (Some r))
                   (Concurrent.threads c) ->
            Concurrent.shared (Concurrent.exec E sched c) = st /\
            Forall (fun pc => pc = Concurrent.AtCheck \/
                              pc = Concurrent.AtReturn \/
                              pc = Concurrent.Done (Some r))
                   (Concurrent.threads (Concurrent.exec E sched c))) as Hgen.
  { induction sched as [|i sched IH]; intros c Hc Hall; [done|].
    change (Concurrent.exec E (i :: sched) c)
      with (Concurrent.exec E sched (Concurrent.step E c i)).
    destruct (step_after_init E r c i) as [Hs Hall']; [congruence|done|].
    apply IH; [congruence|done]. }
  apply Hgen; [done|]. cbn. apply Forall_replicate. now left.
Qed.

Lemma concurrent_use_after_init_witness :
  let st := snd (InitLogger env0 "info" "" init_state) in
  Concurrent.shared
    (Concurrent.exec env0 [0; 1; 0; 0; 1; 1]%nat (Concurrent.start 2 st)) = st /\
  Forall (fun pc => pc = Concurrent.AtCheck \/ pc = Concurrent.AtReturn \/
                    pc = Concurrent.Done
                           (Some (mkRef 0 (InitLogger_logger "info" ""))))
         (Concurrent.threads
            (Concurrent.exec env0 [0; 1; 0; 0; 1; 1]%nat
                             (Concurrent.start 2 st))).
Proof.
  apply (concurrent_use_after_init env0
           (snd (InitLogger env0 "info" "" init_state))
           (mkRef 0 (InitLogger_logger "info" "")) 2
           [0; 1; 0; 0; 1; 1]%nat).
  reflexivity.
Defined.

(** Initializing twice with one path leaves two handles on the file. *)
Example reinit_keeps_both_handles :
  handles (run env0 [CallInitLogger "info" "app.log"; CallInfo "up" [];
                     CallInitLogger "debug" "app.log"; CallSync]
               init_state)
  = ["app.log"; "app.log"].
Proof. vm_compute. reflexivity. Qed.

(** The log file can be the console itself: with the path "/dev/stdout"
    one [Error] call puts two lines on standard output, the console line
    and the JSON line. *)
Example console_as_log_file :
  output env0 Stdout
    (snd (Error env0 "boom" []
            (snd (InitLogger env0 "info" "/dev/stdout" init_state))))
  = [mkRecord consoleEncoder (mkEntry ErrorLevel "boom") [] true true;
     mkRecord fileEncoder (mkEntry ErrorLevel "boom") [] true true].
Proof. vm_compute. reflexivity. Qed.

(** The fallback logger samples: under a sampler that admits three
    entries, the fourth identical record is counted and dropped. *)
Example fallback_sampler_drops :
  let st := run env_sampling
              [CallInfo "tick" []; CallInfo "tick" []; CallInfo "tick" [];
               CallInfo "tick" []] init_state in
  length (output env_sampling Stderr st) = 3%nat /\ sampler_checks st = 4%nat.
Proof. vm_compute. split; reflexivity. Qed.
